(** * donburi/ecs: the scheduler of ecs.go

    A shallow embedding of [src/ecs/ecs.go]: the two priority-ordered
    registries ([updaters], [drawers]), registration ([AddSystem]),
    script attachment ([AddScript]) and the two dispatch loops
    ([Update], [Draw]).

    Go values are modelled as follows.
    - [int] priorities are only compared, never computed with: [Z].
    - A slice is a [list]; [append] adds at the right end.
    - [*ebiten.Image] and [*SystemOpts] are pointers that may be nil:
      [option].
    - A [panic] is an [outcome] returned next to the state reached when
      it was raised.
    - The methods of registered systems are user code: they are a table
      of state transformers, indexed by the system, and every call the
      scheduler makes is recorded in a log of [call]s. *)

From Stdlib Require Import List ZArith Bool String Lia Permutation Sorted.
Import ListNotations.

Set Implicit Arguments.
Local Open Scope Z_scope.

(* ================================================================= *)
(** ** Package sort: [sort.SliceStable] *)

(** [sort.SliceStable] belongs to Go's standard library.  It is modelled
    by the insertion sort that the library runs on every block of at most
    20 elements ([insertionSort]: each element in turn is swapped with
    its left neighbour as long as [less] holds between the element and
    that neighbour).  On longer slices the library merges such blocks
    stably; lemma [SliceStable_is_the_stable_sort] below shows that, for
    the comparison used in ecs.go, every stable sort returns the same
    list. *)
Module sort.
Section SliceStable.
Variable A : Type.
Variable less : A -> A -> bool.

(** [sift x before]: [x] stands to the right of [before], whose
    elements are listed from the nearest to the farthest; [x] moves
    left while [less x neighbour].  The result is listed in the same
    right-to-left order. *)
Fixpoint sift (x : A) (before : list A) : list A :=
  match before with
  | [] => [x]
  | y :: rest => if less x y then y :: sift x rest else x :: before
  end.

Definition insertionSort (data : list A) : list A :=
  rev (fold_left (fun done x => sift x done) data []).

Definition SliceStable (data : list A) : list A := insertionSort data.
End SliceStable.
End sort.

(* ================================================================= *)
(** ** Package ecs *)

Module ecs.

(** A surface, [ebiten.Image], is opaque: only its identity matters. *)
Definition Image := nat.

(** The dynamic value handed to [AddSystem] as [interface{}].
    [ScriptSys] is the scheduler's own [*ScriptSystem]; [UserSys id u d]
    is any other value, [u] and [d] telling whether its type has the
    method of [Updater] and of [Drawer] (what the two type assertions of
    [AddSystem] test).  A nil interface is a [UserSys] with neither. *)
Inductive system : Type :=
| ScriptSys
| UserSys (id : nat) (upd drw : bool).

(** Modelled from the spec: the declaration of [ScriptSystem] is not in
    ecs.go; section 4.3 says it is registered as both an update and a
    draw participant, so its type has both methods. *)
Definition isUpdater (s : system) : bool :=
  match s with
  | ScriptSys => true
  | UserSys _ upd _ => upd
  end.

Definition isDrawer (s : system) : bool :=
  match s with
  | ScriptSys => true
  | UserSys _ _ drw => drw
  end.


Record SystemOpts : Type := mkSystemOpts {
  opt_Image : option Image;
  opt_Priority : Z
}.

(** [&SystemOpts{}]: the zero value. *)
Definition zeroSystemOpts : SystemOpts := mkSystemOpts None 0.

Record updater : Type := mkUpdater {
  u_Updater : system;
  u_Priority : Z
}.

Record drawer : Type := mkDrawer {
  d_Drawer : system;
  d_Priority : Z;
  d_Image : option Image
}.

Definition sortUpdaterEntries (entries : list updater) : list updater :=
  sort.SliceStable (fun i j => u_Priority i >? u_Priority j) entries.

Definition sortDrawerEntries (entries : list drawer) : list drawer :=
  sort.SliceStable (fun i j => d_Priority i >? d_Priority j) entries.

(** How a call ends. *)
Inductive outcome : Type :=
| Returned
| Panicked (msg : string).

(** The spec's ConfigurationError is the panic of [AddSystem]. *)
Definition ConfigurationError : outcome :=
  Panicked "ECS system should be either Updater or Drawer at least.".

(* ----------------------------------------------------------------- *)
(** *** The clock and the script subsystem (declared outside ecs.go) *)

(** Modelled from the spec: type [Time] and its methods are not in
    ecs.go.  Section 4.1: [advance] sets [delta] to the time elapsed
    since the previous [advance] (or since construction) and adds it to
    [elapsed].  The wall clock reading is an input, [now]. *)
Record Time : Type := mkTime {
  elapsed : Z;
  delta : Z;
  last : Z
}.

Definition NewTime (now : Z) : Time := mkTime 0 0 now.

Definition Time_Update (now : Z) (t : Time) : Time :=
  mkTime (elapsed t + (now - last t)) (now - last t) now.

(** A behavior handed to [AddScript] as [interface{}]: its identity and
    whether its type has the per-entity update and draw methods. *)
Record script : Type := mkScript {
  script_id : nat;
  isEntryUpdater : bool;
  isEntryDrawer : bool
}.

Record ScriptOpts : Type := mkScriptOpts {
  sopt_Image : option Image;
  sopt_Priority : Z
}.

(** What the scheduler calls: the clock's [Update], a system's
    [Update(ecs)], a system's [Draw(ecs, target)]. *)
Inductive call : Type :=
| CallTimeUpdate
| CallUpdate (s : system)
| CallDraw (s : system) (target : option Image).

Section Store.
(** The store ([donburi.World]) and its queries are opaque. *)
Variable World : Type.
Variable Query : Type.

Record Binding : Type := mkBinding {
  b_query : Query;
  b_behavior : script;
  b_priority : Z;
  b_surface : option Image
}.

(** Modelled from the spec: [ScriptSystem] is not in ecs.go.
    Section 4.3: it owns the list of bindings; attaching fails when the
    behavior has neither capability and appends a binding otherwise.
    The text of its panic is not known and left empty. *)
Record ScriptSystem : Type := mkScriptSystem {
  scripts : list Binding
}.

Definition NewScriptSystem : ScriptSystem := mkScriptSystem [].

Definition ScriptSystem_AddScript (q : Query) (s : script)
    (opts : option ScriptOpts) (ss : ScriptSystem) : outcome * ScriptSystem :=
  let opts := match opts with Some o => o | None => mkScriptOpts None 0 end in
  if isEntryUpdater s || isEntryDrawer s then
    (Returned,
     mkScriptSystem
       (scripts ss ++ [mkBinding q s (sopt_Priority opts) (sopt_Image opts)]))
  else
    (Panicked EmptyString, ss).

(* --------------------------------------------------------------- *)
(** *** The scheduler *)

(** [ECS] with the fields of the embedded [*innerECS] inlined.  [Time]
    and [ScriptSystem] are pointers to objects owned by the scheduler;
    the objects themselves are kept in the record. *)
Record ECS : Type := mkECS {
  ecs_World : World;
  ecs_Time : Time;
  ecs_ScriptSystem : ScriptSystem;
  updaters : list updater;
  drawers : list drawer
}.

Definition set_Time (t : Time) (e : ECS) : ECS :=
  mkECS (ecs_World e) t (ecs_ScriptSystem e) (updaters e) (drawers e).

Definition set_ScriptSystem (ss : ScriptSystem) (e : ECS) : ECS :=
  mkECS (ecs_World e) (ecs_Time e) ss (updaters e) (drawers e).

Definition set_updaters (us : list updater) (e : ECS) : ECS :=
  mkECS (ecs_World e) (ecs_Time e) (ecs_ScriptSystem e) us (drawers e).

Definition set_drawers (ds : list drawer) (e : ECS) : ECS :=
  mkECS (ecs_World e) (ecs_Time e) (ecs_ScriptSystem e) (updaters e) ds.

Definition addUpdater (entry : updater) (e : ECS) : ECS :=
  set_updaters (sortUpdaterEntries (updaters e ++ [entry])) e.

Definition addDrawer (entry : drawer) (e : ECS) : ECS :=
  set_drawers (sortDrawerEntries (drawers e ++ [entry])) e.

(** [AddSystem]: the two type assertions in turn, each followed by the
    insertion and [flag = true]; the panic comes last, when [flag] is
    still false. *)
Definition AddSystem (sys : system) (opts : option SystemOpts) (e : ECS)
    : outcome * ECS :=
  let opts := match opts with Some o => o | None => zeroSystemOpts end in
  let flag := false in
  let '(flag, e) :=
    if isUpdater sys
    then (true, addUpdater (mkUpdater sys (opt_Priority opts)) e)
    else (flag, e) in
  let '(flag, e) :=
    if isDrawer sys
    then (true, addDrawer (mkDrawer sys (opt_Priority opts) (opt_Image opts)) e)
    else (flag, e) in
  if negb flag then (ConfigurationError, e) else (Returned, e).

(** [AddSystems]: [AddSystem system nil] on each; a panic ends the loop. *)
Fixpoint AddSystems (systems : list system) (e : ECS) : outcome * ECS :=
  match systems with
  | [] => (Returned, e)
  | sys :: rest =>
      match AddSystem sys None e with
      | (Returned, e') => AddSystems rest e'
      | stop => stop
      end
  end.

(** [NewECS]: the wall clock reading taken by [NewTime] is [now].  The
    struct literal leaves the [ScriptSystem] pointer nil until the
    assignment that follows it; the record has no nil, so the literal
    already holds the fresh subsystem. *)
Definition NewECS (w : World) (now : Z) : outcome * ECS :=
  let e := mkECS w (NewTime now) NewScriptSystem [] [] in
  let e := set_ScriptSystem NewScriptSystem e in
  AddSystem ScriptSys (Some zeroSystemOpts) e.

Definition AddScript (q : Query) (s : script) (opts : option ScriptOpts)
    (e : ECS) : outcome * ECS :=
  let '(o, ss) := ScriptSystem_AddScript q s opts (ecs_ScriptSystem e) in
  (o, set_ScriptSystem ss e).

(* --------------------------------------------------------------- *)
(** *** Dispatch *)

(** The methods of the registered systems.  Each receives the
    scheduler ([ecs *ECS]) and may change it; [sys_Draw] also receives
    the surface.  The entry for [ScriptSys] is the subsystem's own
    update and draw entry point.  The methods are total here: one that
    panics or does not return is outside the model. *)
Variable sys_Update : system -> ECS -> ECS.
Variable sys_Draw : system -> option Image -> ECS -> ECS.

(** [Update]: [ecs.Time.Update()], then the loop.  Go evaluates the
    range expression once, so the loop visits the slice value read on
    entry.  The second component is the log of the calls made.

    A method that registers a system while the loop runs appends to the
    registry and sorts it again, in the array the loop reads when its
    capacity allows; what the loop visits then is not modelled, and the
    properties of dispatch below are stated for methods that leave the
    registries alone ([quiet_systems]). *)
Definition Update (now : Z) (e : ECS) : ECS * list call :=
  let e := set_Time (Time_Update now (ecs_Time e)) e in
  fold_left
    (fun (st : ECS * list call) (u : updater) =>
       let '(e, log) := st in
       (sys_Update (u_Updater u) e, log ++ [CallUpdate (u_Updater u)]))
    (updaters e) (e, [CallTimeUpdate]).

(** [Draw]: the entry's own image when it is not nil, [screen]
    otherwise. *)
Definition Draw (screen : option Image) (e : ECS) : ECS * list call :=
  fold_left
    (fun (st : ECS * list call) (d : drawer) =>
       let '(e, log) := st in
       match d_Image d with
       | Some img =>
           (sys_Draw (d_Drawer d) (Some img) e,
            log ++ [CallDraw (d_Drawer d) (Some img)])
       | None =>
           (sys_Draw (d_Drawer d) screen e,
            log ++ [CallDraw (d_Drawer d) screen])
       end)
    (drawers e) (e, []).

(* --------------------------------------------------------------- *)
(** *** Host programs *)

(** The host constructs the scheduler and registers systems one after
    the other; a panic ends the program. *)
Definition registration : Type := (system * option SystemOpts)%type.

Fixpoint register_all (regs : list registration) (e : ECS) : outcome * ECS :=
  match regs with
  | [] => (Returned, e)
  | (sys, opts) :: rest =>
      match AddSystem sys opts e with
      | (Returned, e') => register_all rest e'
      | stop => stop
      end
  end.

Definition setup (w : World) (now : Z) (regs : list registration)
    : outcome * ECS :=
  match NewECS w now with
  | (Returned, e) => register_all regs e
  | stop => stop
  end.

(** After setup the host runs its loop: ticks and frames in any
    interleaving. *)
Inductive op : Type :=
| Tick (now : Z)
| Frame (screen : option Image).

Definition run_op (e : ECS) (o : op) : ECS :=
  match o with
  | Tick now => fst (Update now e)
  | Frame screen => fst (Draw screen e)
  end.

Definition run_loop (ops : list op) (e : ECS) : ECS :=
  fold_left run_op ops e.

(** A method keeps the registries when it leaves both as it found
    them: it does not register during dispatch (section 5 of the spec
    leaves what happens then to the implementation). *)
Definition keeps_registries (f : ECS -> ECS) : Prop :=
  forall e, updaters (f e) = updaters e /\ drawers (f e) = drawers e.

Definition quiet_systems : Prop :=
  (forall s, keeps_registries (sys_Update s)) /\
  (forall s target, keeps_registries (sys_Draw s target)).

End Store.

(* ----------------------------------------------------------------- *)
(** *** Vocabulary of the properties *)

Definition optPriority (opts : option SystemOpts) : Z :=
  match opts with Some o => opt_Priority o | None => 0 end.

Definition optImage (opts : option SystemOpts) : option Image :=
  match opts with Some o => opt_Image o | None => None end.

(** The update entries a sequence of registrations asks for, in
    registration order, and likewise the draw entries. *)
Definition registered_updaters (regs : list (system * option SystemOpts))
    : list updater :=
  flat_map
    (fun r => if isUpdater (fst r)
              then [mkUpdater (fst r) (optPriority (snd r))] else [])
    regs.

Definition registered_drawers (regs : list (system * option SystemOpts))
    : list drawer :=
  flat_map
    (fun r => if isDrawer (fst r)
              then [mkDrawer (fst r) (optPriority (snd r)) (optImage (snd r))]
              else [])
    regs.

(** The entries [NewECS] makes for the script subsystem. *)
Definition scriptUpdater : updater := mkUpdater ScriptSys 0.
Definition scriptDrawer : drawer := mkDrawer ScriptSys 0 None.

(** Non-increasing priority: every entry has at least the priority of
    every later one. *)
Definition descending (A : Type) (prio : A -> Z) (l : list A) : Prop :=
  StronglySorted (fun a b => prio b <= prio a) l.

(** The entries of priority [p], in the order they have in [l]. *)
Definition of_priority (A : Type) (prio : A -> Z) (p : Z) (l : list A) : list A :=
  filter (fun a => prio a =? p) l.





(** The surface [Draw] hands to an entry. *)
Definition surface_for (screen : option Image) (d : drawer) : option Image :=
  match d_Image d with
  | Some img => Some img
  | None => screen
  end.

(** The registries of [e] hold the entries [us] and [ds], asked for in
    that order: each registry is in non-increasing priority order, keeps
    the entries of each priority in the order asked, and holds exactly
    the entries asked for. *)
Definition tracks (World Query : Type) (e : ECS World Query)
    (us : list updater) (ds : list drawer) : Prop :=
  (descending u_Priority (updaters e) /\
   (forall p, of_priority u_Priority p (updaters e) = of_priority u_Priority p us) /\
   Permutation (updaters e) us) /\
  (descending d_Priority (drawers e) /\
   (forall p, of_priority d_Priority p (drawers e) = of_priority d_Priority p ds) /\
   Permutation (drawers e) ds).

(** A system [AddSystem] accepts: one of the two type assertions
    succeeds. *)
Definition capable (s : system) : bool := isUpdater s || isDrawer s.

(** The wall clock readings of the ticks of a history, in order. *)
Definition tick_readings (ops : list op) : list Z :=
  flat_map (fun o => match o with
                     | Tick now => [now]
                     | Frame _ => []
                     end) ops.

(** The systems called, in order, whatever the surface. *)
Definition callee (c : call) : option system :=
  match c with
  | CallTimeUpdate => None
  | CallUpdate s => Some s
  | CallDraw s _ => Some s
  end.

End ecs.

(* ================================================================= *)
(** ** A small host program *)

(** Four systems of the four capability sets, methods that leave the
    registries alone, and a scheduler set up with them. *)
Module demo.
Import ecs.

Definition physics : system := UserSys 1 true false.
Definition sprites : system := UserSys 2 true true.
Definition hud : system := UserSys 3 false true.
Definition inert : system := UserSys 4 false false.

(** The store is a number here, and there are no queries to tell
    apart. *)
Definition Scheduler : Type := ECS nat unit.

(** Every update attaches one more script; drawing changes nothing. *)
Definition on_Update (s : system) (e : Scheduler) : Scheduler :=
  snd (AddScript tt (mkScript 1 true false) None e).

Definition on_Draw (s : system) (target : option Image) (e : Scheduler)
    : Scheduler := e.

Definition set_World (w : nat) (e : Scheduler) : Scheduler :=
  mkECS w (ecs_Time e) (ecs_ScriptSystem e) (updaters e) (drawers e).


(** A draw method that writes the surface it is handed into the store,
    one decimal digit a call (no surface: 0; surface [i]: [i + 1]). *)
Definition paint (s : system) (target : option Image) (e : Scheduler)
    : Scheduler :=
  set_World (10 * ecs_World e
             + match target with Some i => S i | None => 0 end)%nat e.



Definition regs : list registration :=
  [ (physics, Some (mkSystemOpts None 10));
    (sprites, Some (mkSystemOpts None 5));
    (hud, Some (mkSystemOpts (Some 7%nat) 0));
    (physics, None);
    (sprites, Some (mkSystemOpts (Some 8%nat) 10)) ].

Definition booted : Scheduler := snd (setup unit 0%nat 100 regs).

(** A second scheduler, on another store and started later. *)
Definition twin : Scheduler := snd (setup unit 1%nat 500 regs).

(** Systems registered in one call of [AddSystems]. *)
Definition batch : list system := [physics; hud; sprites; physics].

Definition history : list op := [Tick 116; Frame (Some 0%nat); Tick 133].
Definition twin_history : list op := [Frame None; Frame None; Tick 516].

End demo.

(* ================================================================= *)
(** ** Facts about [sort.SliceStable] under the comparison of ecs.go *)

Module sorting.
Import ecs.

Section ByPriority.
Variable A : Type.
Variable prio : A -> Z.

(** [less] of [sortUpdaterEntries] and [sortDrawerEntries]. *)
Local Abbreviation less := (fun i j : A => prio i >? prio j).
Local Abbreviation ascending := (StronglySorted (fun a b : A => prio a <= prio b)).

Lemma of_priority_app p (l1 l2 : list A) :
  of_priority prio p (l1 ++ l2) = of_priority prio p l1 ++ of_priority prio p l2.
Proof. apply filter_app. Qed.

Lemma of_priority_none p (l : list A) :
  Forall (fun a => prio a <> p) l -> of_priority prio p l = [].
Proof.
  induction 1 as [|a l Ha _ IH]; simpl; [reflexivity|].
  destruct (Z.eqb_spec (prio a) p); [contradiction|exact IH].
Qed.

Lemma of_priority_In p a (l : list A) :
  In a (of_priority prio p l) <-> In a l /\ prio a = p.
Proof.
  unfold of_priority. rewrite filter_In, Z.eqb_eq. reflexivity.
Qed.

(** Sifting moves [x] only past entries of another priority. *)
Lemma sift_of_priority p x (before : list A) :
  of_priority prio p (sort.sift less x before) = of_priority prio p (x :: before).
Proof.
  induction before as [|y rest IH]; [reflexivity|].
  cbn [sort.sift].
  destruct (Z.gtb_spec (prio x) (prio y)) as [Hgt|Hle]; [|reflexivity].
  change (of_priority prio p (y :: sort.sift less x rest))
    with (if prio y =? p then y :: of_priority prio p (sort.sift less x rest)
          else of_priority prio p (sort.sift less x rest)).
  rewrite IH. simpl.
  destruct (Z.eqb_spec (prio y) p), (Z.eqb_spec (prio x) p);
    try reflexivity; lia.
Qed.

Lemma sift_perm x (before : list A) :
  Permutation (sort.sift less x before) (x :: before).
Proof.
  induction before as [|y rest IH]; simpl; [reflexivity|].
  destruct (prio x >? prio y); [|reflexivity].
  rewrite IH. apply perm_swap.
Qed.

Lemma sift_ascending x (before : list A) :
  ascending before -> ascending (sort.sift less x before).
Proof.
  induction before as [|y rest IH]; intros Hs; simpl.
  - repeat constructor.
  - apply StronglySorted_inv in Hs as [Hrest Hy].
    destruct (Z.gtb_spec (prio x) (prio y)) as [Hgt|Hle].
    + constructor; [auto|].
      rewrite (sift_perm x rest).
      constructor; [lia|exact Hy].
    + constructor; [constructor; assumption|].
      constructor; [exact Hle|].
      eapply Forall_impl; [|exact Hy]. simpl; intros; lia.
Qed.

Lemma descending_snoc (l : list A) x :
  descending prio l -> Forall (fun a => prio x <= prio a) l ->
  descending prio (l ++ [x]).
Proof.
  unfold descending.
  induction l as [|a l IH]; intros Hs Hx; simpl.
  - repeat constructor.
  - apply StronglySorted_inv in Hs as [Hl Ha].
    apply Forall_cons_iff in Hx as [Hxa Hxl].
    constructor; [auto|].
    apply Forall_app; split; [exact Ha|repeat constructor; exact Hxa].
Qed.

Lemma ascending_rev (l : list A) :
  ascending l -> descending prio (rev l).
Proof.
  induction 1 as [|a l _ IH Ha]; simpl.
  - constructor.
  - apply descending_snoc; [exact IH|].
    apply Forall_rev. exact Ha.
Qed.

Lemma descending_app (l1 l2 : list A) :
  descending prio l1 -> descending prio l2 ->
  (forall a b, In a l1 -> In b l2 -> prio b <= prio a) ->
  descending prio (l1 ++ l2).
Proof.
  unfold descending.
  induction l1 as [|a l1 IH]; intros H1 H2 H12; simpl; [exact H2|].
  apply StronglySorted_inv in H1 as [Hl1 Ha].
  constructor.
  - apply IH; auto. intros; apply H12; simpl; auto.
  - apply Forall_app; split; [exact Ha|].
    apply Forall_forall. intros b Hb. apply H12; simpl; auto.
Qed.

Lemma sift_all_ascending (data done : list A) :
  ascending done ->
  ascending (fold_left (fun done x => sort.sift less x done) data done).
Proof.
  revert done.
  induction data as [|x data IH]; intros done Hd; simpl; [exact Hd|].
  apply IH, sift_ascending, Hd.
Qed.

Lemma sift_all_of_priority p (data done : list A) :
  of_priority prio p
    (rev (fold_left (fun done x => sort.sift less x done) data done))
  = of_priority prio p (rev done ++ data).
Proof.
  revert done.
  induction data as [|x data IH]; intros done; simpl.
  - rewrite app_nil_r. reflexivity.
  - rewrite IH.
    change (x :: data) with ([x] ++ data).
    rewrite app_assoc, !(of_priority_app p _ data). f_equal.
    change (rev done ++ [x]) with (rev (x :: done)).
    unfold of_priority at 1 2. rewrite !filter_rev. f_equal.
    apply sift_of_priority.
Qed.

Lemma sift_all_perm (data done : list A) :
  Permutation (fold_left (fun done x => sort.sift less x done) data done)
              (data ++ done).
Proof.
  revert done.
  induction data as [|x data IH]; intros done; simpl; [reflexivity|].
  rewrite IH, sift_perm. symmetry. apply Permutation_middle.
Qed.

(** The three properties of the sort: its result is in non-increasing
    priority order, it keeps the entries of each priority in the order
    they had, and it loses and adds nothing. *)
Lemma SliceStable_descending (data : list A) :
  descending prio (sort.SliceStable less data).
Proof.
  apply ascending_rev, sift_all_ascending. constructor.
Qed.

Lemma SliceStable_of_priority p (data : list A) :
  of_priority prio p (sort.SliceStable less data) = of_priority prio p data.
Proof.
  unfold sort.SliceStable, sort.insertionSort.
  rewrite sift_all_of_priority. reflexivity.
Qed.

Lemma SliceStable_perm (data : list A) :
  Permutation (sort.SliceStable less data) data.
Proof.
  unfold sort.SliceStable, sort.insertionSort.
  rewrite <- Permutation_rev, sift_all_perm, app_nil_r. reflexivity.
Qed.

Lemma descending_head_max a (l : list A) b :
  descending prio (a :: l) -> In b (a :: l) -> prio b <= prio a.
Proof.
  intros Hs Hb. apply StronglySorted_inv in Hs as [_ Ha].
  destruct Hb as [<-|Hb]; [lia|].
  rewrite Forall_forall in Ha. auto.
Qed.

(** A list in non-increasing priority order is determined by its
    priority classes: two stable sorts of one list agree. *)
Lemma stable_sort_unique (l1 l2 : list A) :
  descending prio l1 -> descending prio l2 ->
  (forall p, of_priority prio p l1 = of_priority prio p l2) ->
  l1 = l2.
Proof.
  revert l2.
  induction l1 as [|x t1 IH]; intros [|y t2] H1 H2 Hc.
  - reflexivity.
  - specialize (Hc (prio y)). simpl in Hc.
    rewrite Z.eqb_refl in Hc. discriminate.
  - specialize (Hc (prio x)). simpl in Hc.
    rewrite Z.eqb_refl in Hc. discriminate.
  - assert (Hyx : prio y <= prio x).
    { apply (descending_head_max H1).
      apply (of_priority_In (prio y)). rewrite Hc.
      apply of_priority_In. simpl; auto. }
    assert (Hxy : prio x <= prio y).
    { apply (descending_head_max H2).
      apply (of_priority_In (prio x)). rewrite <- Hc.
      apply of_priority_In. simpl; auto. }
    assert (Hp : prio x = prio y) by lia.
    pose proof (Hc (prio x)) as Hx. simpl in Hx.
    rewrite <- Hp, Z.eqb_refl in Hx.
    injection Hx as Hxy' Ht. subst y.
    f_equal. apply IH.
    + apply StronglySorted_inv in H1. tauto.
    + apply StronglySorted_inv in H2. tauto.
    + intros p. specialize (Hc p). simpl in Hc.
      destruct (Z.eqb_spec (prio x) p); [subst p; exact Ht|exact Hc].
Qed.

(** A list in non-increasing order splits at any priority [p]. *)
Lemma descending_split p (l : list A) :
  descending prio l ->
  exists l1 l2, l = l1 ++ l2 /\
    Forall (fun a => p <= prio a) l1 /\ Forall (fun a => prio a < p) l2.
Proof.
  induction l as [|a l IH]; intros Hs.
  - exists [], []. repeat split; constructor.
  - pose proof Hs as Hs'.
    apply StronglySorted_inv in Hs as [Hl Ha].
    destruct (Z.le_gt_cases p (prio a)) as [Hle|Hlt].
    + destruct (IH Hl) as (l1 & l2 & -> & F1 & F2).
      exists (a :: l1), l2. repeat split; [constructor; assumption|assumption].
    + exists [], (a :: l). repeat split; [constructor|].
      constructor; [exact Hlt|].
      eapply Forall_impl; [|exact Ha]. simpl; intros; lia.
Qed.

(** The first entry of priority [p] comes after entries of greater
    priority only. *)
Lemma first_of_priority p x rest (l : list A) :
  descending prio l ->
  of_priority prio p l = x :: rest ->
  exists l1 l2, l = l1 ++ x :: l2 /\
    Forall (fun a => p < prio a) l1 /\ Forall (fun a => prio a <= p) l2.
Proof.
  induction l as [|a l IH]; intros Hs Hc; [discriminate|].
  pose proof Hs as Hmax.
  apply StronglySorted_inv in Hs as [Hl Ha].
  simpl in Hc. destruct (Z.eqb_spec (prio a) p) as [Hp|Hp].
  - injection Hc as -> _.
    exists [], l. repeat split; [constructor|].
    eapply Forall_impl; [|exact Ha]. simpl; intros; lia.
  - assert (Hx : In x l /\ prio x = p).
    { apply of_priority_In. rewrite Hc. simpl; auto. }
    destruct Hx as [Hin Hpx].
    assert (prio x <= prio a) by (apply (descending_head_max Hmax); simpl; auto).
    destruct (IH Hl Hc) as (l1 & l2 & -> & F1 & F2).
    exists (a :: l1), l2. repeat split; [|assumption].
    constructor; [lia|assumption].
Qed.

(** Appending to a sorted list and sorting again inserts the new entry
    after the entries of greater or equal priority and before those of
    lower priority, and moves nothing else. *)
Lemma SliceStable_insert (l : list A) x :
  descending prio l ->
  exists l1 l2,
    l = l1 ++ l2 /\
    sort.SliceStable less (l ++ [x]) = l1 ++ x :: l2 /\
    Forall (fun a => prio x <= prio a) l1 /\
    Forall (fun a => prio a < prio x) l2.
Proof.
  intros Hs.
  destruct (descending_split (prio x) Hs) as (l1 & l2 & -> & F1 & F2).
  exists l1, l2. repeat split; try assumption.
  assert (Hs1 : descending prio l1 /\ descending prio l2).
  { clear F1 F2. unfold descending in *. induction l1 as [|a l1 IH]; simpl in *.
    - split; [constructor|assumption].
    - apply StronglySorted_inv in Hs as [Hl Ha].
      apply Forall_app in Ha as [Ha1 Ha2].
      destruct (IH Hl) as [I1 I2]. split; [constructor|]; assumption. }
  destruct Hs1 as [Hs1 Hs2].
  apply stable_sort_unique.
  - apply SliceStable_descending.
  - apply descending_app; [exact Hs1| |].
    + constructor; [exact Hs2|].
      eapply Forall_impl; [|exact F2]. simpl; intros; lia.
    + rewrite Forall_forall in F1, F2.
      intros a b Ha [<-|Hb]; [auto|].
      specialize (F1 _ Ha). specialize (F2 _ Hb). lia.
  - intros p. rewrite SliceStable_of_priority.
    change (x :: l2) with ([x] ++ l2).
    rewrite !of_priority_app. rewrite <- app_assoc. f_equal.
    simpl. destruct (Z.eqb_spec (prio x) p) as [<-|Hne].
    + rewrite (@of_priority_none (prio x) l2); [reflexivity|].
      eapply Forall_impl; [|exact F2]. simpl; intros; lia.
    + rewrite app_nil_r. reflexivity.
Qed.

(** Hence any list that is a stable sort of [data] is the list
    [sort.SliceStable] returns: the choice of algorithm does not show. *)
Lemma SliceStable_is_the_stable_sort (data sorted : list A) :
  descending prio sorted ->
  (forall p, of_priority prio p sorted = of_priority prio p data) ->
  sorted = sort.SliceStable less data.
Proof.
  intros Hs Hc. apply stable_sort_unique.
  - exact Hs.
  - apply SliceStable_descending.
  - intros p. rewrite SliceStable_of_priority. apply Hc.
Qed.

End ByPriority.
End sorting.

(* ================================================================= *)
(** ** The scheduler *)

Module scheduler.
Import ecs sorting.



Section Registration.
Variable World Query : Type.
Local Abbreviation ECS := (ecs.ECS World Query).

(** [AddSystem] by cases on the two type assertions. *)
Lemma AddSystem_cases s opts (e : ECS) :
  AddSystem s opts e =
  let u := mkUpdater s (optPriority opts) in
  let d := mkDrawer s (optPriority opts) (optImage opts) in
  match isUpdater s, isDrawer s with
  | true, true => (Returned, addDrawer d (addUpdater u e))
  | true, false => (Returned, addUpdater u e)
  | false, true => (Returned, addDrawer d e)
  | false, false => (ConfigurationError, e)
  end.
Proof.
  unfold AddSystem.
  destruct opts as [o|], (isUpdater s), (isDrawer s); reflexivity.
Qed.

Lemma AddSystem_updaters s opts (e : ECS) :
  updaters (snd (AddSystem s opts e)) =
  if isUpdater s
  then sortUpdaterEntries (updaters e ++ [mkUpdater s (optPriority opts)])
  else updaters e.
Proof.
  rewrite AddSystem_cases.
  destruct (isUpdater s), (isDrawer s); reflexivity.
Qed.

Lemma AddSystem_drawers s opts (e : ECS) :
  drawers (snd (AddSystem s opts e)) =
  if isDrawer s
  then sortDrawerEntries
         (drawers e ++ [mkDrawer s (optPriority opts) (optImage opts)])
  else drawers e.
Proof.
  rewrite AddSystem_cases.
  destruct (isUpdater s), (isDrawer s); reflexivity.
Qed.

Lemma AddSystem_outcome s opts (e : ECS) :
  fst (AddSystem s opts e) =
  if isUpdater s || isDrawer s then Returned else ConfigurationError.
Proof.
  rewrite AddSystem_cases.
  destruct (isUpdater s), (isDrawer s); reflexivity.
Qed.

(** [AddSystems] registers each system without options. *)
Lemma AddSystems_register_all systems (e : ECS) :
  AddSystems systems e = register_all (map (fun s => (s, None)) systems) e.
Proof.
  revert e. induction systems as [|s systems IH]; intros e; simpl.
  - reflexivity.
  - destruct (AddSystem s None e) as [[|msg] e1]; [apply IH|reflexivity].
Qed.

Lemma NewECS_value (w : World) now :
  NewECS Query w now =
  (Returned, mkECS w (NewTime now) (NewScriptSystem Query)
               [scriptUpdater] [scriptDrawer]).
Proof. reflexivity. Qed.

Lemma tracks_NewECS (w : World) now :
  tracks (snd (NewECS Query w now)) [scriptUpdater] [scriptDrawer].
Proof.
  rewrite NewECS_value. simpl.
  repeat split; try reflexivity; repeat constructor.
Qed.

Lemma tracks_AddSystem s opts (e : ECS) us ds :
  tracks e us ds ->
  tracks (snd (AddSystem s opts e))
         (us ++ registered_updaters [(s, opts)])
         (ds ++ registered_drawers [(s, opts)]).
Proof.
  intros [(Su & Cu & Pu) (Sd & Cd & Pd)].
  unfold tracks. rewrite AddSystem_updaters, AddSystem_drawers.
  unfold registered_updaters, registered_drawers. simpl.
  split.
  - destruct (isUpdater s); simpl; rewrite ?app_nil_r; [|tauto].
    unfold sortUpdaterEntries. repeat split.
    + apply SliceStable_descending.
    + intros p. rewrite SliceStable_of_priority, !of_priority_app, Cu.
      reflexivity.
    + rewrite SliceStable_perm. apply Permutation_app_tail, Pu.
  - destruct (isDrawer s); simpl; rewrite ?app_nil_r; [|tauto].
    unfold sortDrawerEntries. repeat split.
    + apply SliceStable_descending.
    + intros p. rewrite SliceStable_of_priority, !of_priority_app, Cd.
      reflexivity.
    + rewrite SliceStable_perm. apply Permutation_app_tail, Pd.
Qed.

Lemma tracks_register_all regs : forall (e e' : ECS) us ds,
  tracks e us ds ->
  register_all regs e = (Returned, e') ->
  tracks e' (us ++ registered_updaters regs) (ds ++ registered_drawers regs).
Proof.
  induction regs as [|[s opts] regs IH]; intros e e' us ds Ht Hr; simpl in Hr.
  - injection Hr as <-. unfold registered_updaters, registered_drawers.
    simpl. rewrite !app_nil_r. exact Ht.
  - pose proof (tracks_AddSystem s opts Ht) as Ht'.
    destruct (AddSystem s opts e) as [[|msg] e1]; [|discriminate].
    specialize (IH _ _ _ _ Ht' Hr).
    change ((s, opts) :: regs) with ([(s, opts)] ++ regs).
    unfold registered_updaters, registered_drawers in *.
    rewrite !flat_map_app, !app_assoc. exact IH.
Qed.

Lemma tracks_setup (w : World) now regs (e : ECS) :
  setup Query w now regs = (Returned, e) ->
  tracks e (scriptUpdater :: registered_updaters regs)
           (scriptDrawer :: registered_drawers regs).
Proof.
  unfold setup. rewrite NewECS_value. intros Hr.
  apply (tracks_register_all regs (tracks_NewECS w now)).
  rewrite NewECS_value. exact Hr.
Qed.

End Registration.

Section Dispatch.
Variable World Query : Type.
Local Abbreviation ECS := (ecs.ECS World Query).
Variable sys_Update : system -> ECS -> ECS.
Variable sys_Draw : system -> option Image -> ECS -> ECS.

Local Abbreviation quiet := (quiet_systems sys_Update sys_Draw).
Local Abbreviation update_call := (fun u : updater => CallUpdate (u_Updater u)).
Local Abbreviation run_updaters :=
  (fold_left (fun (st : ECS) (u : updater) => sys_Update (u_Updater u) st)).
Local Abbreviation run_drawers screen :=
  (fold_left (fun (st : ECS) (d : drawer) =>
                sys_Draw (d_Drawer d) (surface_for screen d) st)).

(** The two loops, from any state and log. *)
Lemma Update_loop (us : list updater) : forall (st : ECS) (log : list call),
  fold_left
    (fun (st : ECS * list call) (u : updater) =>
       let '(e, log) := st in
       (sys_Update (u_Updater u) e, log ++ [CallUpdate (u_Updater u)]))
    us (st, log)
  = (run_updaters us st, log ++ map update_call us).
Proof.
  induction us as [|u us IH]; intros st log; simpl.
  - rewrite app_nil_r. reflexivity.
  - rewrite IH, <- app_assoc. reflexivity.
Qed.

Lemma Draw_loop screen (ds : list drawer) : forall (st : ECS) (log : list call),
  fold_left
    (fun (st : ECS * list call) (d : drawer) =>
       let '(e, log) := st in
       match d_Image d with
       | Some img =>
           (sys_Draw (d_Drawer d) (Some img) e,
            log ++ [CallDraw (d_Drawer d) (Some img)])
       | None =>
           (sys_Draw (d_Drawer d) screen e,
            log ++ [CallDraw (d_Drawer d) screen])
       end)
    ds (st, log)
  = (run_drawers screen ds st,
     log ++ map (fun d => CallDraw (d_Drawer d) (surface_for screen d)) ds).
Proof.
  induction ds as [|d ds IH]; intros st log; simpl.
  - rewrite app_nil_r. reflexivity.
  - assert (Hs : surface_for screen d =
                 match d_Image d with Some img => Some img | None => screen end)
      by reflexivity.
    destruct (d_Image d) as [img|]; rewrite IH, <- app_assoc, Hs; reflexivity.
Qed.

(** The state and the log of [Update] and of [Draw], told apart. *)
Lemma Update_run now (e : ECS) :
  Update sys_Update now e =
  (run_updaters (updaters e) (set_Time (Time_Update now (ecs_Time e)) e),
   CallTimeUpdate :: map update_call (updaters e)).
Proof.
  unfold Update. rewrite Update_loop. reflexivity.
Qed.

Lemma Draw_run screen (e : ECS) :
  Draw sys_Draw screen e =
  (run_drawers screen (drawers e) e,
   map (fun d => CallDraw (d_Drawer d) (surface_for screen d)) (drawers e)).
Proof.
  unfold Draw. rewrite Draw_loop. reflexivity.
Qed.

Lemma run_updaters_keeps (us : list updater) (st : ECS) :
  quiet ->
  updaters (run_updaters us st) = updaters st /\
  drawers (run_updaters us st) = drawers st.
Proof.
  intros [Hu _]. revert st.
  induction us as [|u us IH]; intros st; simpl; [tauto|].
  destruct (IH (sys_Update (u_Updater u) st)) as [-> ->]. apply Hu.
Qed.

Lemma run_drawers_keeps screen (ds : list drawer) (st : ECS) :
  quiet ->
  updaters (run_drawers screen ds st) = updaters st /\
  drawers (run_drawers screen ds st) = drawers st.
Proof.
  intros [_ Hd]. revert st.
  induction ds as [|d ds IH]; intros st; simpl; [tauto|].
  destruct (IH (sys_Draw (d_Drawer d) (surface_for screen d) st)) as [-> ->].
  apply Hd.
Qed.

Lemma Update_keeps now (e : ECS) :
  quiet ->
  updaters (fst (Update sys_Update now e)) = updaters e /\
  drawers (fst (Update sys_Update now e)) = drawers e.
Proof.
  intros Hq. rewrite Update_run. simpl.
  apply (run_updaters_keeps (updaters e)
           (set_Time (Time_Update now (ecs_Time e)) e) Hq).
Qed.

Lemma Draw_keeps screen (e : ECS) :
  quiet ->
  updaters (fst (Draw sys_Draw screen e)) = updaters e /\
  drawers (fst (Draw sys_Draw screen e)) = drawers e.
Proof.
  intros Hq. rewrite Draw_run. simpl.
  apply (run_drawers_keeps screen (drawers e) _ Hq).
Qed.

Lemma run_loop_keeps ops (e : ECS) :
  quiet ->
  updaters (run_loop sys_Update sys_Draw ops e) = updaters e /\
  drawers (run_loop sys_Update sys_Draw ops e) = drawers e.
Proof.
  intros Hq. revert e. unfold run_loop.
  induction ops as [|o ops IH]; intros e; simpl; [tauto|].
  destruct (IH (run_op sys_Update sys_Draw e o)) as [-> ->].
  destruct o as [now|screen]; simpl.
  - apply Update_keeps, Hq.
  - apply Draw_keeps, Hq.
Qed.

Lemma run_updaters_clock (us : list updater) (st : ECS) :
  (forall s st, ecs_Time (sys_Update s st) = ecs_Time st) ->
  ecs_Time (run_updaters us st) = ecs_Time st.
Proof.
  intros Hc. revert st.
  induction us as [|u us IH]; intros st; simpl; [reflexivity|].
  rewrite IH. apply Hc.
Qed.





End Dispatch.

Section Registering.
Variable World Query : Type.
Local Abbreviation ECS := (ecs.ECS World Query).

(** C2: [AddSystem] ends in the ConfigurationError panic exactly when
    the system has neither the update nor the draw method; it returns
    exactly when it has one of them; and when it panics the scheduler,
    both registries included, is as it was before the call. *)
Theorem AddSystem_fails_iff_no_capability s opts (e : ECS) :
  (fst (AddSystem s opts e) = ConfigurationError
     <-> isUpdater s = false /\ isDrawer s = false)
  /\ (fst (AddSystem s opts e) = Returned
     <-> isUpdater s = true \/ isDrawer s = true)
  /\ (fst (AddSystem s opts e) <> Returned -> snd (AddSystem s opts e) = e).
Proof.
  rewrite AddSystem_cases.
  unfold ConfigurationError.
  destruct (isUpdater s), (isDrawer s); simpl; intuition congruence.
Qed.

(** C5: registering a system that has both methods returns and adds
    exactly one entry to each registry, nothing else changing in either:
    the update entry and the draw entry hold that system and the one
    priority of the options, the draw entry their image too. *)
Theorem AddSystem_both_registries s opts (e : ECS) :
  isUpdater s = true -> isDrawer s = true ->
  fst (AddSystem s opts e) = Returned
  /\ Permutation (updaters (snd (AddSystem s opts e)))
                 (mkUpdater s (optPriority opts) :: updaters e)
  /\ Permutation (drawers (snd (AddSystem s opts e)))
                 (mkDrawer s (optPriority opts) (optImage opts) :: drawers e).
Proof.
  intros Hu Hd.
  rewrite AddSystem_outcome, AddSystem_updaters, AddSystem_drawers, Hu, Hd.
  unfold sortUpdaterEntries, sortDrawerEntries.
  repeat split.
  - rewrite SliceStable_perm. symmetry. apply Permutation_cons_append.
  - rewrite SliceStable_perm. symmetry. apply Permutation_cons_append.
Qed.

(** C6: [NewECS] returns a scheduler with a fresh clock, a script
    subsystem without bindings, and registries that hold the script
    subsystem alone, at priority 0 and without image.  After any
    registrations that go through, the script subsystem is the first of
    the priority 0 entries of each registry, the others following in
    registration order, and every entry before it has a priority above
    0. *)
Theorem NewECS_script_first (w : World) t0 :
  NewECS Query w t0
    = (Returned,
       mkECS w (NewTime t0) (NewScriptSystem Query)
             [mkUpdater ScriptSys 0] [mkDrawer ScriptSys 0 None])
  /\ forall regs (e : ECS),
       setup Query w t0 regs = (Returned, e) ->
       (of_priority u_Priority 0 (updaters e)
          = scriptUpdater :: of_priority u_Priority 0 (registered_updaters regs)
        /\ exists u1 u2,
             updaters e = u1 ++ scriptUpdater :: u2 /\
             Forall (fun u => 0 < u_Priority u) u1 /\
             Forall (fun u => u_Priority u <= 0) u2)
       /\
       (of_priority d_Priority 0 (drawers e)
          = scriptDrawer :: of_priority d_Priority 0 (registered_drawers regs)
        /\ exists d1 d2,
             drawers e = d1 ++ scriptDrawer :: d2 /\
             Forall (fun d => 0 < d_Priority d) d1 /\
             Forall (fun d => d_Priority d <= 0) d2).
Proof.
  split; [reflexivity|].
  intros regs e Hs.
  destruct (tracks_setup _ _ _ Hs) as [(Su & Cu & _) (Sd & Cd & _)].
  specialize (Cu 0). specialize (Cd 0).
  change (of_priority u_Priority 0 (scriptUpdater :: registered_updaters regs))
    with (scriptUpdater :: of_priority u_Priority 0 (registered_updaters regs))
    in Cu.
  change (of_priority d_Priority 0 (scriptDrawer :: registered_drawers regs))
    with (scriptDrawer :: of_priority d_Priority 0 (registered_drawers regs))
    in Cd.
  split; (split; [assumption|]).
  - eapply first_of_priority; [exact Su|exact Cu].
  - eapply first_of_priority; [exact Sd|exact Cd].
Qed.

(** C7: [AddScript] hands the binding to the script subsystem and does
    nothing else: its outcome and the subsystem after the call are those
    of the subsystem's own [AddScript], and the update registry, the
    draw registry, the clock and the store are as before. *)
Theorem AddScript_only_delegates (q : Query) sc opts (e : ECS) :
  (fst (AddScript q sc opts e), ecs_ScriptSystem (snd (AddScript q sc opts e)))
    = ScriptSystem_AddScript q sc opts (ecs_ScriptSystem e)
  /\ updaters (snd (AddScript q sc opts e)) = updaters e
  /\ drawers (snd (AddScript q sc opts e)) = drawers e
  /\ ecs_Time (snd (AddScript q sc opts e)) = ecs_Time e
  /\ ecs_World (snd (AddScript q sc opts e)) = ecs_World e.
Proof.
  unfold AddScript.
  destruct (ScriptSystem_AddScript q sc opts (ecs_ScriptSystem e)) as [o ss].
  simpl. repeat split.
Qed.

(** C9: inserting into a registry that is in non-increasing priority
    order puts the new entry after every entry of greater or equal
    priority and before every entry of lower priority, and leaves the
    entries that were there in the order they had; so it is for
    [addUpdater] and for [addDrawer]. *)
Theorem insertion_keeps_relative_order (u : updater) (d : drawer) (e : ECS) :
  descending u_Priority (updaters e) ->
  descending d_Priority (drawers e) ->
  (exists u1 u2,
     updaters e = u1 ++ u2 /\
     updaters (addUpdater u e) = u1 ++ u :: u2 /\
     Forall (fun x => u_Priority u <= u_Priority x) u1 /\
     Forall (fun x => u_Priority x < u_Priority u) u2)
  /\
  (exists d1 d2,
     drawers e = d1 ++ d2 /\
     drawers (addDrawer d e) = d1 ++ d :: d2 /\
     Forall (fun x => d_Priority d <= d_Priority x) d1 /\
     Forall (fun x => d_Priority x < d_Priority d) d2).
Proof.
  intros Su Sd. split.
  - apply (SliceStable_insert u Su).
  - apply (SliceStable_insert d Sd).
Qed.

End Registering.

Section Hosting.
Variable World Query : Type.
Local Abbreviation ECS := (ecs.ECS World Query).
Variable sys_Update : system -> ECS -> ECS.
Variable sys_Draw : system -> option Image -> ECS -> ECS.

Local Abbreviation quiet := (quiet_systems sys_Update sys_Draw).
Local Abbreviation later ops e := (run_loop sys_Update sys_Draw ops e).

(** Two schedulers set up by the same registrations hold the same
    registries, whatever their stores and clocks. *)
Lemma setup_registries (w1 w2 : World) t1 t2 regs (e1 e2 : ECS) :
  setup Query w1 t1 regs = (Returned, e1) ->
  setup Query w2 t2 regs = (Returned, e2) ->
  updaters e1 = updaters e2 /\ drawers e1 = drawers e2.
Proof.
  intros H1 H2.
  destruct (tracks_setup _ _ _ H1) as [(Su1 & Cu1 & _) (Sd1 & Cd1 & _)].
  destruct (tracks_setup _ _ _ H2) as [(Su2 & Cu2 & _) (Sd2 & Cd2 & _)].
  split.
  - apply (stable_sort_unique Su1 Su2). intros p. rewrite Cu1, Cu2. reflexivity.
  - apply (stable_sort_unique Sd1 Sd2). intros p. rewrite Cd1, Cd2. reflexivity.
Qed.

(** C8: two schedulers set up by the same registrations, on any stores
    and clocks and after any histories of ticks and frames (with systems
    that do not register during dispatch), call the same systems in the
    same order on a tick and on a frame, and with the same surfaces when
    the frame is given the same screen; ticks and frames leave both
    registries as the registrations made them. *)
Theorem dispatch_order_deterministic
    (w1 w2 : World) t1 t2 regs (e1 e2 : ECS) ops1 ops2 now1 now2 screen1 screen2 :
  quiet ->
  setup Query w1 t1 regs = (Returned, e1) ->
  setup Query w2 t2 regs = (Returned, e2) ->
  snd (Update sys_Update now1 (later ops1 e1))
    = snd (Update sys_Update now2 (later ops2 e2))
  /\ map callee (snd (Draw sys_Draw screen1 (later ops1 e1)))
    = map callee (snd (Draw sys_Draw screen2 (later ops2 e2)))
  /\ snd (Draw sys_Draw screen1 (later ops1 e1))
    = snd (Draw sys_Draw screen1 (later ops2 e2))
  /\ updaters (later ops1 e1) = updaters e1
  /\ drawers (later ops1 e1) = drawers e1.
Proof.
  intros Hq H1 H2.
  destruct (setup_registries _ _ _ _ _ H1 H2) as [Hu Hd].
  destruct (run_loop_keeps ops1 e1 Hq) as [Ku1 Kd1].
  destruct (run_loop_keeps ops2 e2 Hq) as [Ku2 Kd2].
  rewrite !Update_run, !Draw_run. simpl.
  rewrite Ku1, Ku2, Kd1, Kd2, Hu, Hd.
  repeat split.
  rewrite !map_map. reflexivity.
Qed.








End Hosting.

(* ----------------------------------------------------------------- *)
(** *** The theorems at work on the host program of [demo] *)

Ltac demo_quiet :=
  split; [intros s e | intros s target e]; split; reflexivity.

Ltac demo_descending :=
  unfold descending; simpl; repeat (constructor; simpl; try lia).


Lemma AddSystem_fails_iff_no_capability_demo :
  fst (AddSystem demo.inert None demo.booted) <> Returned
  /\ snd (AddSystem demo.inert None demo.booted) = demo.booted.
Proof.
  split.
  - discriminate.
  - apply (AddSystem_fails_iff_no_capability demo.inert None demo.booted).
    discriminate.
Defined.



Lemma AddSystem_both_registries_demo :
  fst (AddSystem demo.sprites (Some (mkSystemOpts (Some 8%nat) 5)) demo.booted)
    = Returned
  /\ Permutation
       (updaters (snd (AddSystem demo.sprites
                         (Some (mkSystemOpts (Some 8%nat) 5)) demo.booted)))
       (mkUpdater demo.sprites 5 :: updaters demo.booted)
  /\ Permutation
       (drawers (snd (AddSystem demo.sprites
                        (Some (mkSystemOpts (Some 8%nat) 5)) demo.booted)))
       (mkDrawer demo.sprites 5 (Some 8%nat) :: drawers demo.booted).
Proof.
  apply (AddSystem_both_registries demo.sprites
           (Some (mkSystemOpts (Some 8%nat) 5)) demo.booted);
    reflexivity.
Defined.

Lemma NewECS_script_first_demo :
  of_priority u_Priority 0 (updaters demo.booted)
    = scriptUpdater :: of_priority u_Priority 0 (registered_updaters demo.regs)
  /\ of_priority d_Priority 0 (drawers demo.booted)
    = scriptDrawer :: of_priority d_Priority 0 (registered_drawers demo.regs).
Proof.
  destruct (proj2 (NewECS_script_first unit 0%nat 100) demo.regs demo.booted
              eq_refl) as [[Hu _] [Hd _]].
  split; assumption.
Defined.

Lemma dispatch_order_deterministic_demo :
  snd (Update demo.on_Update 150
         (run_loop demo.on_Update demo.on_Draw demo.history demo.booted))
    = snd (Update demo.on_Update 533
             (run_loop demo.on_Update demo.on_Draw demo.twin_history demo.twin))
  /\ map callee
       (snd (Draw demo.on_Draw (Some 0%nat)
               (run_loop demo.on_Update demo.on_Draw demo.history demo.booted)))
    = map callee
       (snd (Draw demo.on_Draw None
               (run_loop demo.on_Update demo.on_Draw demo.twin_history demo.twin)))
  /\ snd (Draw demo.on_Draw (Some 0%nat)
            (run_loop demo.on_Update demo.on_Draw demo.history demo.booted))
    = snd (Draw demo.on_Draw (Some 0%nat)
             (run_loop demo.on_Update demo.on_Draw demo.twin_history demo.twin))
  /\ updaters (run_loop demo.on_Update demo.on_Draw demo.history demo.booted)
    = updaters demo.booted
  /\ drawers (run_loop demo.on_Update demo.on_Draw demo.history demo.booted)
    = drawers demo.booted.
Proof.
  apply (@dispatch_order_deterministic nat unit demo.on_Update demo.on_Draw
           0%nat 1%nat 100 500 demo.regs demo.booted demo.twin
           demo.history demo.twin_history 150 533 (Some 0%nat) None).
  - demo_quiet.
  - reflexivity.
  - reflexivity.
Defined.

Lemma insertion_keeps_relative_order_demo :
  (exists u1 u2,
     updaters demo.booted = u1 ++ u2 /\
     updaters (addUpdater (mkUpdater demo.physics 5) demo.booted)
       = u1 ++ mkUpdater demo.physics 5 :: u2 /\
     Forall (fun x => 5 <= u_Priority x) u1 /\
     Forall (fun x => u_Priority x < 5) u2)
  /\
  (exists d1 d2,
     drawers demo.booted = d1 ++ d2 /\
     drawers (addDrawer (mkDrawer demo.hud 5 None) demo.booted)
       = d1 ++ mkDrawer demo.hud 5 None :: d2 /\
     Forall (fun x => 5 <= d_Priority x) d1 /\
     Forall (fun x => d_Priority x < 5) d2).
Proof.
  apply (insertion_keeps_relative_order (mkUpdater demo.physics 5)
           (mkDrawer demo.hud 5 None) demo.booted).
  - demo_descending.
  - demo_descending.
Defined.


End scheduler.

(* ================================================================= *)
(** ** More of ecs.go: batches, frames, and how registrations compose *)

Module coverage.
Import ecs sorting scheduler.

Section Orders.
Variable A : Type.
Variable prio : A -> Z.
Local Abbreviation less := (fun i j : A => prio i >? prio j).

Lemma descending_flat p (l : list A) :
  Forall (fun a => prio a = p) l -> descending prio l.
Proof.
  unfold descending.
  induction 1 as [|a l Ha Hl IH]; constructor; [exact IH|].
  eapply Forall_impl; [|exact Hl]. simpl. intros b Hb. lia.
Qed.

Lemma SliceStable_sorted_id (l : list A) :
  descending prio l -> sort.SliceStable less l = l.
Proof.
  intros Hs. symmetry.
  apply (@SliceStable_is_the_stable_sort A prio l l Hs). reflexivity.
Qed.

(** Two insertions at different priorities can be swapped. *)
Lemma insert_commute (l : list A) a b :
  prio a <> prio b ->
  sort.SliceStable less (sort.SliceStable less (l ++ [a]) ++ [b])
  = sort.SliceStable less (sort.SliceStable less (l ++ [b]) ++ [a]).
Proof.
  intros Hab.
  apply (@stable_sort_unique A prio); try apply SliceStable_descending.
  intros p.
  rewrite !SliceStable_of_priority, !of_priority_app,
          !SliceStable_of_priority, !of_priority_app, <- !app_assoc.
  f_equal. simpl.
  destruct (Z.eqb_spec (prio a) p), (Z.eqb_spec (prio b) p);
    try reflexivity; lia.
Qed.

End Orders.

Section Batches.
Variable World Query : Type.
Local Abbreviation ECS := (ecs.ECS World Query).

Lemma AddSystem_capable s opts (e : ECS) :
  capable s = true ->
  AddSystem s opts e = (Returned, snd (AddSystem s opts e)).
Proof.
  unfold capable. rewrite AddSystem_cases.
  destruct (isUpdater s), (isDrawer s); simpl; intros H;
    try reflexivity; discriminate.
Qed.

Lemma AddSystem_incapable s opts (e : ECS) :
  capable s = false -> AddSystem s opts e = (ConfigurationError, e).
Proof.
  unfold capable. rewrite AddSystem_cases.
  destruct (isUpdater s), (isDrawer s); simpl; intros H;
    try reflexivity; discriminate.
Qed.

Lemma AddSystem_rest s opts (e : ECS) :
  ecs_World (snd (AddSystem s opts e)) = ecs_World e /\
  ecs_Time (snd (AddSystem s opts e)) = ecs_Time e /\
  ecs_ScriptSystem (snd (AddSystem s opts e)) = ecs_ScriptSystem e.
Proof.
  rewrite AddSystem_cases.
  destruct (isUpdater s), (isDrawer s); repeat split.
Qed.

Lemma registered_updaters_batch systems :
  registered_updaters (map (fun s => (s, None)) systems)
  = map (fun s => mkUpdater s 0) (filter isUpdater systems).
Proof.
  unfold registered_updaters.
  induction systems as [|s systems IH]; simpl; [reflexivity|].
  rewrite IH. destruct (isUpdater s); reflexivity.
Qed.

Lemma registered_drawers_batch systems :
  registered_drawers (map (fun s => (s, None)) systems)
  = map (fun s => mkDrawer s 0 None) (filter isDrawer systems).
Proof.
  unfold registered_drawers.
  induction systems as [|s systems IH]; simpl; [reflexivity|].
  rewrite IH. destruct (isDrawer s); reflexivity.
Qed.

(** X1: [AddSystems] registers the systems from left to right and stops
    at the first one that has neither method: it panics there, the
    systems before it stay registered and the ones after it are not
    looked at. *)
Theorem AddSystems_stops_at_first_incapable pre bad post (e : ECS) :
  forallb capable pre = true ->
  capable bad = false ->
  AddSystems pre e = (Returned, snd (AddSystems pre e))
  /\ AddSystems (pre ++ bad :: post) e
     = (ConfigurationError, snd (AddSystems pre e)).
Proof.
  intros Hpre Hbad. revert e.
  induction pre as [|s pre IH]; intros e; simpl.
  - rewrite (AddSystem_incapable bad None e Hbad). split; reflexivity.
  - simpl in Hpre. apply andb_prop in Hpre as [Hs Hpre].
    rewrite (AddSystem_capable s None e Hs).
    apply (IH Hpre).
Qed.

(** X2: [AddSystems] returns exactly when every system of the batch has
    at least one of the two methods. *)
Theorem AddSystems_returns_iff_all_capable systems (e : ECS) :
  fst (AddSystems systems e) = Returned <-> forallb capable systems = true.
Proof.
  revert e. induction systems as [|s systems IH]; intros e; simpl.
  - tauto.
  - destruct (capable s) eqn:Hs.
    + rewrite (AddSystem_capable s None e Hs). simpl. apply IH.
    + rewrite (AddSystem_incapable s None e Hs). simpl.
      unfold ConfigurationError. split; discriminate.
Qed.

(** X3: on a new scheduler, a batch that goes through is dispatched in
    the order of the batch: every entry gets priority 0 and no image, so
    the update registry is the script subsystem followed by the updaters
    of the batch in order, and the draw registry the script subsystem
    followed by the drawers of the batch in order. *)
Theorem NewECS_AddSystems_batch_order (w : World) now systems (e : ECS) :
  AddSystems systems (snd (NewECS Query w now)) = (Returned, e) ->
  updaters e
    = mkUpdater ScriptSys 0
      :: map (fun s => mkUpdater s 0) (filter isUpdater systems)
  /\ drawers e
    = mkDrawer ScriptSys 0 None
      :: map (fun s => mkDrawer s 0 None) (filter isDrawer systems).
Proof.
  intros Hs. rewrite AddSystems_register_all in Hs.
  destruct (tracks_register_all _ (tracks_NewECS Query w now) Hs)
    as [(Su & Cu & _) (Sd & Cd & _)].
  rewrite registered_updaters_batch in Cu.
  rewrite registered_drawers_batch in Cd.
  split.
  - apply (stable_sort_unique Su); [|exact Cu].
    apply (@descending_flat _ u_Priority 0).
    constructor; [reflexivity|].
    apply Forall_forall. intros u Hu.
    apply in_map_iff in Hu as (s & <- & _). reflexivity.
  - apply (stable_sort_unique Sd); [|exact Cd].
    apply (@descending_flat _ d_Priority 0).
    constructor; [reflexivity|].
    apply Forall_forall. intros d Hd.
    apply in_map_iff in Hd as (s & <- & _). reflexivity.
Qed.

(** X4: [AddSystem] changes nothing but the registries the system
    belongs in: the store, the clock and the script subsystem stay as
    they were, a system without the update method leaves the update
    registry as it was, and one without the draw method the draw
    registry. *)
Theorem AddSystem_touches_only_its_registries s opts (e : ECS) :
  ecs_World (snd (AddSystem s opts e)) = ecs_World e
  /\ ecs_Time (snd (AddSystem s opts e)) = ecs_Time e
  /\ ecs_ScriptSystem (snd (AddSystem s opts e)) = ecs_ScriptSystem e
  /\ (isUpdater s = false -> updaters (snd (AddSystem s opts e)) = updaters e)
  /\ (isDrawer s = false -> drawers (snd (AddSystem s opts e)) = drawers e).
Proof.
  rewrite AddSystem_cases.
  destruct (isUpdater s), (isDrawer s); simpl; repeat split;
    intros H; try reflexivity; discriminate.
Qed.

Lemma AddSystem_keeps_entries s opts (e : ECS) u d :
  In u (updaters e) -> In d (drawers e) ->
  In u (updaters (snd (AddSystem s opts e))) /\
  In d (drawers (snd (AddSystem s opts e))).
Proof.
  intros Hu Hd. rewrite AddSystem_updaters, AddSystem_drawers. split.
  - destruct (isUpdater s); [|exact Hu].
    apply (Permutation_in u (Permutation_sym (SliceStable_perm u_Priority _))).
    apply in_or_app. left. exact Hu.
  - destruct (isDrawer s); [|exact Hd].
    apply (Permutation_in d (Permutation_sym (SliceStable_perm d_Priority _))).
    apply in_or_app. left. exact Hd.
Qed.

(** X5: registration never removes an entry.  An entry of a registry is
    still in it after [AddSystem], and after [AddSystems] on any batch,
    also one that panics midway. *)
Theorem registration_never_removes s opts systems (e : ECS) u d :
  In u (updaters e) -> In d (drawers e) ->
  (In u (updaters (snd (AddSystem s opts e))) /\
   In d (drawers (snd (AddSystem s opts e))))
  /\
  (In u (updaters (snd (AddSystems systems e))) /\
   In d (drawers (snd (AddSystems systems e)))).
Proof.
  intros Hu Hd. split; [apply AddSystem_keeps_entries; assumption|].
  revert e Hu Hd.
  induction systems as [|s' systems IH]; intros e Hu Hd; simpl; [tauto|].
  destruct (AddSystem_keeps_entries s' None e u d Hu Hd) as [Hu' Hd'].
  destruct (AddSystem s' None e) as [[|msg] e1]; simpl in *.
  - apply IH; assumption.
  - tauto.
Qed.

(** X6: the two sort functions leave a list alone that is already in
    non-increasing priority order. *)
Theorem sort_entries_sorted_identity (us : list updater) (ds : list drawer) :
  descending u_Priority us -> descending d_Priority ds ->
  sortUpdaterEntries us = us /\ sortDrawerEntries ds = ds.
Proof.
  intros Hu Hd. split.
  - apply (SliceStable_sorted_id Hu).
  - apply (SliceStable_sorted_id Hd).
Qed.

(** X7: on any list, [sortUpdaterEntries] and [sortDrawerEntries]
    return the entries of the list, each as often as it was there, in
    non-increasing priority order, the entries of one priority in the
    order they had. *)
Theorem sort_entries_stable_descending (us : list updater) (ds : list drawer) :
  (descending u_Priority (sortUpdaterEntries us)
   /\ Permutation (sortUpdaterEntries us) us
   /\ forall p, of_priority u_Priority p (sortUpdaterEntries us)
               = of_priority u_Priority p us)
  /\
  (descending d_Priority (sortDrawerEntries ds)
   /\ Permutation (sortDrawerEntries ds) ds
   /\ forall p, of_priority d_Priority p (sortDrawerEntries ds)
               = of_priority d_Priority p ds).
Proof.
  unfold sortUpdaterEntries, sortDrawerEntries.
  repeat split.
  - apply SliceStable_descending.
  - apply SliceStable_perm.
  - intros p. apply SliceStable_of_priority.
  - apply SliceStable_descending.
  - apply SliceStable_perm.
  - intros p. apply SliceStable_of_priority.
Qed.

(** X8: sorting after every insertion gives what one sort at the end
    gives: after [NewECS] and registrations that go through, each
    registry is the sorted list of all the entries asked for, the script
    subsystem's first. *)
Theorem registries_are_one_sort (w : World) t0 regs (e : ECS) :
  setup Query w t0 regs = (Returned, e) ->
  updaters e
    = sortUpdaterEntries (mkUpdater ScriptSys 0 :: registered_updaters regs)
  /\ drawers e
    = sortDrawerEntries (mkDrawer ScriptSys 0 None :: registered_drawers regs).
Proof.
  intros Hs.
  destruct (tracks_setup _ _ _ Hs) as [(Su & Cu & _) (Sd & Cd & _)].
  split.
  - apply (@SliceStable_is_the_stable_sort _ u_Priority _ _ Su Cu).
  - apply (@SliceStable_is_the_stable_sort _ d_Priority _ _ Sd Cd).
Qed.

(** X9: two registrations with different priorities can be made in
    either order: the scheduler reached is the same. *)
Theorem AddSystem_commutes_at_distinct_priorities s1 o1 s2 o2 (e : ECS) :
  optPriority o1 <> optPriority o2 ->
  snd (AddSystem s2 o2 (snd (AddSystem s1 o1 e)))
  = snd (AddSystem s1 o1 (snd (AddSystem s2 o2 e))).
Proof.
  intros Hp.
  assert (Hu := @insert_commute _ u_Priority (updaters e)
                  (mkUpdater s1 (optPriority o1))
                  (mkUpdater s2 (optPriority o2)) Hp).
  assert (Hd := @insert_commute _ d_Priority (drawers e)
                  (mkDrawer s1 (optPriority o1) (optImage o1))
                  (mkDrawer s2 (optPriority o2) (optImage o2)) Hp).
  rewrite !AddSystem_cases.
  destruct (isUpdater s1), (isDrawer s1), (isUpdater s2), (isDrawer s2);
    cbn [snd]; unfold addUpdater, addDrawer, set_updaters, set_drawers;
    cbn [updaters drawers ecs_World ecs_Time ecs_ScriptSystem];
    unfold sortUpdaterEntries, sortDrawerEntries;
    rewrite ?Hu, ?Hd; reflexivity.
Qed.

End Batches.

Section Frames.
Variable World Query : Type.
Local Abbreviation ECS := (ecs.ECS World Query).
Variable sys_Update : system -> ECS -> ECS.
Variable sys_Draw : system -> option Image -> ECS -> ECS.

Local Abbreviation quiet := (quiet_systems sys_Update sys_Draw).
Local Abbreviation later ops e := (run_loop sys_Update sys_Draw ops e).

(** X10: after any registrations that go through, every later frame
    (with systems that do not register during dispatch) runs the draw
    methods of the entries of the draw registry, one after the other in
    registry order, each on the scheduler the one before left and with
    its own image or else the screen; the log shows the same calls; that
    order is non-increasing in priority, the entries of one priority in
    the order they were registered, the script subsystem of [NewECS]
    first among those of priority 0. *)
Theorem Draw_priority_order (w : World) t0 regs (e : ECS) ops screen :
  quiet ->
  setup Query w t0 regs = (Returned, e) ->
  fst (Draw sys_Draw screen (later ops e))
    = fold_left (fun st d => sys_Draw (d_Drawer d)
                               match d_Image d with
                               | Some own => Some own
                               | None => screen
                               end st)
        (drawers e) (later ops e)
  /\ snd (Draw sys_Draw screen (later ops e))
    = map (fun d => CallDraw (d_Drawer d) (surface_for screen d)) (drawers e)
  /\ descending d_Priority (drawers e)
  /\ forall p, of_priority d_Priority p (drawers e)
              = of_priority d_Priority p
                  (mkDrawer ScriptSys 0 None :: registered_drawers regs).
Proof.
  intros Hq Hs.
  destruct (tracks_setup _ _ _ Hs) as [_ (Sd & Cd & _)].
  rewrite Draw_run. cbn [fst snd].
  destruct (run_loop_keeps ops e Hq) as [_ ->].
  auto.
Qed.

Lemma run_updaters_leaves (R : Type) (obs : ECS -> R) :
  (forall s st, obs (sys_Update s st) = obs st) ->
  forall (us : list updater) (st : ECS),
    obs (fold_left (fun st u => sys_Update (u_Updater u) st) us st) = obs st.
Proof.
  intros Hk. induction us as [|u us IH]; intros st; simpl; [reflexivity|].
  rewrite IH. apply Hk.
Qed.

Lemma run_drawers_leaves screen (R : Type) (obs : ECS -> R) :
  (forall s target st, obs (sys_Draw s target st) = obs st) ->
  forall (ds : list drawer) (st : ECS),
    obs (fold_left (fun st d => sys_Draw (d_Drawer d) (surface_for screen d) st)
           ds st) = obs st.
Proof.
  intros Hk. induction ds as [|d ds IH]; intros st; simpl; [reflexivity|].
  rewrite IH. apply Hk.
Qed.

(** X11: what a tick and a frame are made of, with systems that do not
    register during dispatch.  A tick is the clock advanced and then the
    update method of each update entry, once each and in registry order,
    and nothing else: the log is the clock call followed by those update
    calls, and whatever the update methods and the clock leave alone, the
    tick leaves alone, whatever the draw methods would do to it.  A frame
    is the draw method of each draw entry, once each and in registry
    order, and nothing else: the log holds those draw calls only, and
    whatever the draw methods leave alone, the clock included, the frame
    leaves alone.  Neither changes a registry. *)
Theorem dispatch_call_kinds now screen (e : ECS) :
  quiet ->
  (fst (Update sys_Update now e)
     = fold_left (fun st u => sys_Update (u_Updater u) st)
         (updaters e) (set_Time (Time_Update now (ecs_Time e)) e)
   /\ snd (Update sys_Update now e)
     = CallTimeUpdate :: map (fun u => CallUpdate (u_Updater u)) (updaters e)
   /\ (forall (R : Type) (obs : ECS -> R),
         (forall t st, obs (set_Time t st) = obs st) ->
         (forall s st, obs (sys_Update s st) = obs st) ->
         obs (fst (Update sys_Update now e)) = obs e)
   /\ updaters (fst (Update sys_Update now e)) = updaters e
   /\ drawers (fst (Update sys_Update now e)) = drawers e)
  /\
  (fst (Draw sys_Draw screen e)
     = fold_left (fun st d => sys_Draw (d_Drawer d)
                                match d_Image d with
                                | Some own => Some own
                                | None => screen
                                end st)
         (drawers e) e
   /\ snd (Draw sys_Draw screen e)
     = map (fun d => CallDraw (d_Drawer d)
                       match d_Image d with
                       | Some own => Some own
                       | None => screen
                       end)
           (drawers e)
   /\ (forall (R : Type) (obs : ECS -> R),
         (forall s target st, obs (sys_Draw s target st) = obs st) ->
         obs (fst (Draw sys_Draw screen e)) = obs e)
   /\ updaters (fst (Draw sys_Draw screen e)) = updaters e
   /\ drawers (fst (Draw sys_Draw screen e)) = drawers e).
Proof.
  intros Hq.
  destruct (Update_keeps now e Hq) as [Uu Ud].
  destruct (Draw_keeps screen e Hq) as [Du Dd].
  split.
  - split; [rewrite Update_run; reflexivity|].
    split; [rewrite Update_run; reflexivity|].
    split; [|split; [exact Uu|exact Ud]].
    intros R obs Ht Hk. rewrite Update_run. cbn [fst].
    rewrite (run_updaters_leaves obs Hk), Ht. reflexivity.
  - split; [rewrite Draw_run; reflexivity|].
    split; [rewrite Draw_run; reflexivity|].
    split; [|split; [exact Du|exact Dd]].
    intros R obs Hk. rewrite Draw_run. cbn [fst].
    apply (run_drawers_leaves screen obs Hk).
Qed.

Lemma run_drawers_clock screen (ds : list drawer) (st : ECS) :
  (forall s target st, ecs_Time (sys_Draw s target st) = ecs_Time st) ->
  ecs_Time (fold_left (fun (st : ECS) (d : drawer) =>
                         sys_Draw (d_Drawer d) (surface_for screen d) st) ds st)
  = ecs_Time st.
Proof.
  intros Hc. revert st.
  induction ds as [|d ds IH]; intros st; simpl; [reflexivity|].
  rewrite IH. apply Hc.
Qed.

(** X12: over a history of ticks and frames, with systems that leave
    the clock alone, the clock is advanced once for each tick, in order
    and with the reading of that tick, and frames do not move it. *)
Theorem clock_follows_ticks ops (e : ECS) :
  (forall s st, ecs_Time (sys_Update s st) = ecs_Time st) ->
  (forall s target st, ecs_Time (sys_Draw s target st) = ecs_Time st) ->
  ecs_Time (later ops e)
  = fold_left (fun t now => Time_Update now t) (tick_readings ops) (ecs_Time e).
Proof.
  intros Hu Hd. revert e. unfold run_loop.
  induction ops as [|o ops IH]; intros e; simpl; [reflexivity|].
  rewrite IH. destruct o as [now|screen]; simpl.
  - rewrite Update_run. cbn [fst].
    rewrite (run_updaters_clock _ _ _ Hu). reflexivity.
  - rewrite Draw_run. cbn [fst].
    rewrite (run_drawers_clock _ _ _ Hd). reflexivity.
Qed.

End Frames.

(* ----------------------------------------------------------------- *)
(** *** The same on the host program of [demo] *)

Lemma AddSystems_stops_at_first_incapable_demo :
  AddSystems [demo.physics; demo.hud] demo.booted
    = (Returned, snd (AddSystems [demo.physics; demo.hud] demo.booted))
  /\ AddSystems ([demo.physics; demo.hud] ++ demo.inert :: [demo.sprites])
                demo.booted
     = (ConfigurationError,
        snd (AddSystems [demo.physics; demo.hud] demo.booted)).
Proof.
  apply (AddSystems_stops_at_first_incapable
           [demo.physics; demo.hud] demo.inert [demo.sprites] demo.booted);
    reflexivity.
Defined.

Lemma NewECS_AddSystems_batch_order_demo :
  updaters (snd (AddSystems demo.batch (snd (NewECS unit 0%nat 100))))
    = [mkUpdater ScriptSys 0; mkUpdater demo.physics 0;
       mkUpdater demo.sprites 0; mkUpdater demo.physics 0]
  /\ drawers (snd (AddSystems demo.batch (snd (NewECS unit 0%nat 100))))
    = [mkDrawer ScriptSys 0 None; mkDrawer demo.hud 0 None;
       mkDrawer demo.sprites 0 None].
Proof.
  apply (@NewECS_AddSystems_batch_order nat unit 0%nat 100 demo.batch
           (snd (AddSystems demo.batch (snd (NewECS unit 0%nat 100))))).
  reflexivity.
Defined.

Lemma AddSystem_touches_only_its_registries_demo :
  drawers (snd (AddSystem demo.physics None demo.booted)) = drawers demo.booted
  /\ updaters (snd (AddSystem demo.hud None demo.booted)) = updaters demo.booted.
Proof.
  split.
  - apply (AddSystem_touches_only_its_registries demo.physics None demo.booted).
    reflexivity.
  - apply (AddSystem_touches_only_its_registries demo.hud None demo.booted).
    reflexivity.
Defined.

Lemma registration_never_removes_demo :
  (In scriptUpdater
      (updaters (snd (AddSystem demo.sprites None demo.booted))) /\
   In scriptDrawer
      (drawers (snd (AddSystem demo.sprites None demo.booted))))
  /\
  (In scriptUpdater
      (updaters (snd (AddSystems [demo.hud; demo.inert] demo.booted))) /\
   In scriptDrawer
      (drawers (snd (AddSystems [demo.hud; demo.inert] demo.booted)))).
Proof.
  apply (registration_never_removes demo.sprites None [demo.hud; demo.inert]
           demo.booted scriptUpdater scriptDrawer).
  - simpl. tauto.
  - simpl. tauto.
Defined.

Lemma sort_entries_sorted_identity_demo :
  sortUpdaterEntries (updaters demo.booted) = updaters demo.booted
  /\ sortDrawerEntries (drawers demo.booted) = drawers demo.booted.
Proof.
  apply (@sort_entries_sorted_identity
           (updaters demo.booted) (drawers demo.booted)).
  - demo_descending.
  - demo_descending.
Defined.

Lemma registries_are_one_sort_demo :
  updaters demo.booted
    = sortUpdaterEntries
        (mkUpdater ScriptSys 0 :: registered_updaters demo.regs)
  /\ drawers demo.booted
    = sortDrawerEntries
        (mkDrawer ScriptSys 0 None :: registered_drawers demo.regs).
Proof.
  apply (@registries_are_one_sort nat unit 0%nat 100 demo.regs demo.booted).
  reflexivity.
Defined.

Lemma AddSystem_commutes_at_distinct_priorities_demo :
  snd (AddSystem demo.hud (Some (mkSystemOpts None 5))
         (snd (AddSystem demo.sprites (Some (mkSystemOpts None 10))
                 demo.booted)))
  = snd (AddSystem demo.sprites (Some (mkSystemOpts None 10))
           (snd (AddSystem demo.hud (Some (mkSystemOpts None 5))
                   demo.booted))).
Proof.
  apply (AddSystem_commutes_at_distinct_priorities
           demo.sprites (Some (mkSystemOpts None 10))
           demo.hud (Some (mkSystemOpts None 5)) demo.booted).
  simpl. lia.
Defined.

Lemma Draw_priority_order_demo :
  ecs_World
    (fst (Draw demo.paint (Some 0%nat)
            (run_loop demo.on_Update demo.paint [Tick 116; Tick 133]
               demo.booted)))
    = (9 * 1000 + 1 * 100 + 1 * 10 + 8)%nat
  /\ snd (Draw demo.paint (Some 0%nat)
            (run_loop demo.on_Update demo.paint [Tick 116; Tick 133]
               demo.booted))
    = [CallDraw demo.sprites (Some 8%nat); CallDraw demo.sprites (Some 0%nat);
       CallDraw ScriptSys (Some 0%nat); CallDraw demo.hud (Some 7%nat)]
  /\ descending d_Priority (drawers demo.booted)
  /\ forall p, of_priority d_Priority p (drawers demo.booted)
              = of_priority d_Priority p
                  (mkDrawer ScriptSys 0 None :: registered_drawers demo.regs).
Proof.
  assert (Hq : quiet_systems demo.on_Update demo.paint) by demo_quiet.
  destruct (@Draw_priority_order nat unit demo.on_Update demo.paint
              0%nat 100 demo.regs demo.booted [Tick 116; Tick 133]
              (Some 0%nat) Hq eq_refl)
    as (Hstate & Hlog & Hsorted & Hstable).
  split; [rewrite Hstate; reflexivity|].
  split; [rewrite Hlog; reflexivity|].
  split; [exact Hsorted|exact Hstable].
Defined.

Lemma dispatch_call_kinds_demo :
  (List.length
     (scripts (ecs_ScriptSystem (fst (Update demo.on_Update 116 demo.booted))))
     = 5%nat
   /\ snd (Update demo.on_Update 116 demo.booted)
      = [CallTimeUpdate; CallUpdate demo.physics; CallUpdate demo.sprites;
         CallUpdate demo.sprites; CallUpdate ScriptSys;
         CallUpdate demo.physics]
   /\ ecs_World (fst (Update demo.on_Update 116 demo.booted))
      = ecs_World demo.booted)
  /\
  (ecs_World (fst (Draw demo.paint None demo.booted))
     = (9 * 1000 + 8)%nat
   /\ snd (Draw demo.paint None demo.booted)
      = [CallDraw demo.sprites (Some 8%nat); CallDraw demo.sprites None;
         CallDraw ScriptSys None; CallDraw demo.hud (Some 7%nat)]
   /\ ecs_Time (fst (Draw demo.paint None demo.booted))
      = ecs_Time demo.booted).
Proof.
  assert (Hq : quiet_systems demo.on_Update demo.paint) by demo_quiet.
  destruct (@dispatch_call_kinds nat unit demo.on_Update demo.paint
              116 None demo.booted Hq)
    as [(Ustate & Ulog & Uleaves & _) (Dstate & Dlog & Dleaves & _)].
  split.
  - split; [rewrite Ustate; reflexivity|].
    split; [rewrite Ulog; reflexivity|].
    apply (Uleaves nat (@ecs_World nat unit)).
    + intros t st. reflexivity.
    + intros s st. reflexivity.
  - split; [rewrite Dstate; reflexivity|].
    split; [rewrite Dlog; reflexivity|].
    apply (Dleaves Time (@ecs_Time nat unit)).
    intros s target st. reflexivity.
Defined.

Lemma clock_follows_ticks_demo :
  ecs_Time (run_loop demo.on_Update demo.on_Draw demo.history demo.booted)
  = mkTime 33 17 133.
Proof.
  rewrite (@clock_follows_ticks nat unit demo.on_Update demo.on_Draw
             demo.history demo.booted).
  - reflexivity.
  - intros s st. reflexivity.
  - intros s target st. reflexivity.
Defined.

End coverage.
